(** * ModelInfo: per-model change tracking of the custom-models action

    A shallow embedding of [src/model_info.py] (class [ModelInfo] with its
    nested dataclasses [Flags] and [FileChanges]) and the properties of its
    derived booleans, of its metadata lookups and of [set_model_paths].

    Python objects are modelled as follows.
    - Metadata values (what the YAML loader produces) are the inductive
      [value]; a mapping is a [gmap string value], since only key lookups
      are performed on it.
    - [_model_file_paths] is a Python [dict], whose iteration order is the
      insertion order and which [main_program_filepath] depends on: it is an
      association list with unique keys, updated by [dict_set].
    - Methods that mutate [self] or raise are computations in the monad
      [M], a state monad over [ModelInfo] with exceptions; the state that an
      exception leaves behind is kept.
    - [x or y] on arbitrary objects is [por], over the truth-value protocol
      [Truthy]. *)

From stdpp Require Import base option list strings gmap.

Open Scope string_scope.
Open Scope list_scope.

(** ** Python values and their truth value *)

(** The values a loaded metadata document is made of. *)
#[local] Set Warnings "-register-all".
Inductive value : Type :=
| VNone
| VBool (b : bool)
| VInt (z : Z)
| VStr (s : string)
| VList (l : list value)
| VDict (d : gmap string value).
#[local] Set Warnings "register-all".

(** Python's truth-value testing ([bool(x)]). *)
Class Truthy (A : Type) := truthy : A → bool.
Global Hint Mode Truthy ! : typeclass_instances.

Definition value_truthy (v : value) : bool :=
  match v with
  | VNone => false
  | VBool b => b
  | VInt z => negb (Z.eqb z 0)
  | VStr s => negb (Nat.eqb (String.length s) 0)
  | VList l => negb (Nat.eqb (length l) 0)
  | VDict d => negb (Nat.eqb (size d) 0)
  end.

Global Instance Truthy_value : Truthy value := value_truthy.
Global Instance Truthy_bool : Truthy bool := λ b, b.
Global Instance Truthy_list {A} : Truthy (list A) :=
  λ l, negb (Nat.eqb (length l) 0).
Global Instance Truthy_sum {A B} `{!Truthy A, !Truthy B} : Truthy (A + B) :=
  λ x, match x with inl a => truthy a | inr b => truthy b end.

(** [a or b]: [a] when [a] is truthy, [b] otherwise.  The operands may be of
    different classes, so the result lives in their sum. *)
Definition por {A B} `{!Truthy A} (a : A) (b : B) : A + B :=
  if truthy a then inl a else inr b.

Infix "`or`" := por (at level 85, right associativity).

(** ** Paths *)

(** A [pathlib.Path]: whether it is anchored at the root, and its
    components. *)
Record Path : Type := mkPath { is_absolute : bool; parts : list string }.

Global Instance Path_eq_dec : EqDecision Path.
Proof. solve_decision. Defined.

(** [Path.name]: the final component, or the empty string. *)
Definition Path_name (p : Path) : string := default "" (last (parts p)).

(** ** Ordered dictionaries *)

(** A Python [dict] with keys [K] and values [V]: the items in insertion
    order, no key twice. *)
Definition dict (K V : Type) : Type := list (K * V).

(** [d.get(k)]. *)
Fixpoint dict_get {K V} `{!EqDecision K} (d : dict K V) (k : K) : option V :=
  match d with
  | [] => None
  | (k', v) :: d' => if decide (k' = k) then Some v else dict_get d' k
  end.

(** [d[k] = v]: an existing key keeps its position and takes the new value,
    a new key goes to the end. *)
Fixpoint dict_set {K V} `{!EqDecision K} (d : dict K V) (k : K) (v : V)
  : dict K V :=
  match d with
  | [] => [(k, v)]
  | (k', v') :: d' =>
      if decide (k' = k) then (k', v) :: d' else (k', v') :: dict_set d' k v
  end.

(** [d.keys()] and [d.items()], in iteration order. *)
Definition dict_keys {K V} (d : dict K V) : list K := d.*1.
Definition dict_items {K V} (d : dict K V) : list (K * V) := d.

(** ** The collaborators of [ModelInfo] *)

(** Exceptions: a [KeyError] of a subscript on a mapping, and the failure of
    the path classification. *)
Inductive exn : Type :=
| KeyError (k : string)
| ClassificationError (p : Path).

Inductive result (A : Type) : Type :=
| Ok (a : A)
| Raise (e : exn).
Global Arguments Ok {A} a.
Global Arguments Raise {A} e.

(** The key names of [schema_validator.ModelSchema].  The module is not part
    of the sources at hand, so the constants the code refers to are
    parameters of the development. *)
Class ModelSchema : Type := {
  MODEL_ID_KEY : string;
  SETTINGS_SECTION_KEY : string;
  VERSION_KEY : string;
  MEMORY_KEY : string;
  REPLICAS_KEY : string;
  TEST_KEY : string;
  TEST_SKIP_KEY : string
}.

(** Modelled from the spec: [ModelSchema.get_value(metadata, key, *sub_keys)]
    of schema_validator.py, which is missing.  It is a nested lookup that
    follows the chain of keys from the metadata mapping and gives [None] as
    soon as a key of the chain is missing; a missing key is not an error.  A
    level that is not a mapping has no keys. *)
Fixpoint lookup_chain (v : value) (keys : list string) : value :=
  match keys with
  | [] => v
  | k :: keys' =>
      match v with
      | VDict d =>
          match d !! k with
          | Some v' => lookup_chain v' keys'
          | None => VNone
          end
      | _ => VNone
      end
  end.

Definition ModelSchema_get_value
  (metadata : gmap string value) (key : string) (sub_keys : list string)
  : value :=
  lookup_chain (VDict metadata) (key :: sub_keys).

(** Some key of the chain is missing: the level it is looked up in is not a
    mapping, or is a mapping without that key. *)
Fixpoint chain_missing (v : value) (keys : list string) : bool :=
  match keys with
  | [] => false
  | k :: keys' =>
      match v with
      | VDict d =>
          match d !! k with
          | Some v' => chain_missing v' keys'
          | None => true
          end
      | _ => true
      end
  end.

(** The file system as [Path.resolve()] sees it: the canonical absolute form
    of a path, which depends on the working directory and on symbolic
    links. *)
Class FileSystem : Type := resolve : Path → Path.

(** [ModelFilePath.RelativeTo]. *)
Inductive RelativeTo : Type :=
| UNDER_MODEL_ROOT
| UNDER_REPO_ROOT_OUTSIDE_MODEL.

Global Instance RelativeTo_eq_dec : EqDecision RelativeTo.
Proof. solve_decision. Defined.

(** A [ModelFilePath], with the attributes that [ModelInfo] reads. *)
Record ModelFilePath : Type := mkModelFilePath {
  name : string;
  resolved : Path;
  under_model : Path;
  relative_to : RelativeTo
}.

Global Instance ModelFilePath_eq_dec : EqDecision ModelFilePath.
Proof. solve_decision. Defined.

(** [strip_prefix r l] is [Some t] when [l = r ++ t]. *)
Fixpoint strip_prefix (r l : list string) : option (list string) :=
  match r, l with
  | [], _ => Some l
  | _ :: _, [] => None
  | x :: r', y :: l' => if decide (x = y) then strip_prefix r' l' else None
  end.

(** The placement of [p] below the directory [root], when [p] is a
    descendant of it. *)
Definition path_below (p root : Path) : option Path :=
  if bool_decide (is_absolute p = is_absolute root) then
    match strip_prefix (parts root) (parts p) with
    | Some (c :: rel) => Some (mkPath false (c :: rel))
    | _ => None
    end
  else None.

(** Modelled from the spec: the constructor
    [ModelFilePath(path, model_path, repo_root_path)] of model_file_path.py,
    which is missing.  The path is resolved to its canonical form; a
    descendant of the model's root is classified under the model root, with
    its placement relative to that root; otherwise a descendant of the
    repository root is classified under the repository root, with its
    placement relative to the repository root; otherwise the classification
    fails.  [name] is the file name of the given path. *)
Definition ModelFilePath_init `{!FileSystem}
  (path model_root_dir repo_root_dir : Path) : result ModelFilePath :=
  let canonical := resolve path in
  match path_below canonical model_root_dir with
  | Some rel =>
      Ok (mkModelFilePath (Path_name path) canonical rel UNDER_MODEL_ROOT)
  | None =>
      match path_below canonical repo_root_dir with
      | Some rel =>
          Ok (mkModelFilePath (Path_name path) canonical rel
                UNDER_REPO_ROOT_OUTSIDE_MODEL)
      | None => Raise (ClassificationError path)
      end
  end.

(** ** [ModelInfo.Flags] and [ModelInfo.FileChanges] *)

Record Flags : Type := mkFlags {
  should_upload_all_files : bool;
  should_update_settings : bool
}.

(** [Flags()]. *)
Definition Flags_init : Flags := mkFlags false false.

Record FileChanges : Type := mkFileChanges {
  changed_or_new_files : list ModelFilePath;
  deleted_file_ids : list string
}.

(** [FileChanges()]: each list comes from its [default_factory]. *)
Definition FileChanges_init : FileChanges := mkFileChanges [] [].

(** [self.changed_or_new_files.append(model_file_path)]. *)
Definition add_changed (self : FileChanges) (model_file_path : ModelFilePath)
  : FileChanges :=
  mkFileChanges (changed_or_new_files self ++ [model_file_path])
                (deleted_file_ids self).

(** [self.deleted_file_ids.extend(deleted_file_id_list)]. *)
Definition extend_deleted (self : FileChanges)
  (deleted_file_id_list : list string) : FileChanges :=
  mkFileChanges (changed_or_new_files self)
                (deleted_file_ids self ++ deleted_file_id_list).

(** The calls a driver can make on a [FileChanges], and a run of them. *)
Inductive FileChanges_call : Type :=
| Call_add_changed (model_file_path : ModelFilePath)
| Call_extend_deleted (deleted_file_id_list : list string).

Definition FileChanges_do (self : FileChanges) (c : FileChanges_call)
  : FileChanges :=
  match c with
  | Call_add_changed p => add_changed self p
  | Call_extend_deleted l => extend_deleted self l
  end.

Definition FileChanges_run (self : FileChanges) (cs : list FileChanges_call)
  : FileChanges :=
  foldl FileChanges_do self cs.

(** ** [ModelInfo] *)

Record ModelInfo : Type := mkModelInfo {
  _yaml_filepath : Path;
  _model_path : Path;
  _metadata : gmap string value;
  _model_file_paths : dict Path ModelFilePath;
  file_changes : FileChanges;
  flags : Flags
}.

(** [ModelInfo.__init__]. *)
Definition ModelInfo_init (yaml_filepath model_path : Path)
  (metadata : gmap string value) : ModelInfo :=
  {| _yaml_filepath := yaml_filepath;
     _model_path := model_path;
     _metadata := metadata;
     _model_file_paths := [];
     file_changes := FileChanges_init;
     flags := Flags_init |}.

(** The read-only properties. *)
Definition yaml_filepath (self : ModelInfo) : Path := _yaml_filepath self.
Definition model_path (self : ModelInfo) : Path := _model_path self.
Definition metadata (self : ModelInfo) : gmap string value := _metadata self.
Definition model_file_paths (self : ModelInfo) : dict Path ModelFilePath :=
  _model_file_paths self.

(** Methods that write to [self] or raise: from the state before the call to
    the outcome and the state after it.  A raised exception keeps the writes
    made before it. *)
Definition M (A : Type) : Type := ModelInfo → result A * ModelInfo.

Global Instance M_ret : MRet M := λ A a self, (Ok a, self).

Global Instance M_bind : MBind M := λ A B k c self,
  match c self with
  | (Ok a, self') => k a self'
  | (Raise e, self') => (Raise e, self')
  end.

(** Read an attribute of [self]; run a fallible expression; assign
    [self._model_file_paths]. *)
Definition read {A} (f : ModelInfo → A) : M A := λ self, (Ok (f self), self).

Definition eval {A} (r : result A) : M A := λ self, (r, self).

Definition assign_model_file_paths (d : dict Path ModelFilePath) : M unit :=
  λ self,
    (Ok (),
     {| _yaml_filepath := _yaml_filepath self;
        _model_path := _model_path self;
        _metadata := _metadata self;
        _model_file_paths := d;
        file_changes := file_changes self;
        flags := flags self |}).

(** [for x in l: body(x)]. *)
Fixpoint for_each {A} (l : list A) (body : A → M unit) : M unit :=
  match l with
  | [] => mret ()
  | x :: l' => body x;; for_each l' body
  end.

(** [self.metadata[ModelSchema.MODEL_ID_KEY]]. *)
Definition user_provided_id `{!ModelSchema} (self : ModelInfo)
  : result value :=
  match metadata self !! MODEL_ID_KEY with
  | Some v => Ok v
  | None => Raise (KeyError MODEL_ID_KEY)
  end.

(** [main_program_filepath]: [next] of the generator over the items of the
    dictionary, [None] on [StopIteration]. *)
Definition main_program_filepath (self : ModelInfo) : option ModelFilePath :=
  head (filter (λ p, name p = "custom.py")
               (dict_items (model_file_paths self)).*2).

Definition main_program_exists (self : ModelInfo) : bool :=
  bool_decide (main_program_filepath self ≠ None).

(** [set_model_paths].  The arguments of [logger.debug] are evaluated before
    the call, so a metadata without the model's identifier raises before
    anything is written. *)
Definition set_model_paths `{!ModelSchema, !FileSystem}
  (paths : list Path) (repo_root_path : Path) : M unit :=
  _ ← (self ← read id; eval (user_provided_id self));
  assign_model_file_paths [];;
  for_each paths (λ path,
    model_root ← read model_path;
    model_filepath ← eval (ModelFilePath_init path model_root repo_root_path);
    d ← read _model_file_paths;
    assign_model_file_paths
      (dict_set d (resolved model_filepath) model_filepath)).

(** [self] with another [_model_file_paths]. *)
Definition with_model_file_paths (self : ModelInfo)
  (d : dict Path ModelFilePath) : ModelInfo :=
  (assign_model_file_paths d self).2.

(** What the loop of [set_model_paths] does to the dictionary: the outcome
    and the dictionary it leaves. *)
Fixpoint add_paths `{!FileSystem} (model_root repo_root_path : Path)
  (paths : list Path) (d : dict Path ModelFilePath)
  : result unit * dict Path ModelFilePath :=
  match paths with
  | [] => (Ok (), d)
  | path :: paths' =>
      match ModelFilePath_init path model_root repo_root_path with
      | Ok model_filepath =>
          add_paths model_root repo_root_path paths'
            (dict_set d (resolved model_filepath) model_filepath)
      | Raise e => (Raise e, d)
      end
  end.

(** A path that the classification accepts. *)
Definition classifies `{!FileSystem} (model_root repo_root_path path : Path)
  : Prop :=
  ∃ model_filepath,
    ModelFilePath_init path model_root repo_root_path = Ok model_filepath.

(** The keys of a dictionary of files are canonical: no key twice, each key
    is the resolved path of its descriptor and the canonical form of some
    path. *)
Definition canonical_keys `{!FileSystem} (d : dict Path ModelFilePath)
  : Prop :=
  NoDup (dict_keys d)
  ∧ Forall (λ kp, kp.1 = resolved kp.2 ∧ ∃ p, kp.1 = resolve p) (dict_items d).

(** [get_value] and [get_settings_value]. *)
Definition get_value `{!ModelSchema} (self : ModelInfo)
  (key : string) (sub_keys : list string) : value :=
  ModelSchema_get_value (metadata self) key sub_keys.

Definition get_settings_value `{!ModelSchema} (self : ModelInfo)
  (key : string) (sub_keys : list string) : value :=
  get_value self SETTINGS_SECTION_KEY (key :: sub_keys).

(** [should_create_new_version]: the value of the chain of [or]s. *)
Definition should_create_new_version `{!ModelSchema} (self : ModelInfo)
  : bool + (list ModelFilePath + (value + value)) :=
  should_upload_all_files (flags self)
  `or` changed_or_new_files (file_changes self)
  `or` get_value self VERSION_KEY [MEMORY_KEY]
  `or` get_value self VERSION_KEY [REPLICAS_KEY].

(** [is_affected_by_commit]. *)
Definition is_affected_by_commit `{!ModelSchema} (self : ModelInfo)
  : (bool + (list ModelFilePath + (value + value))) + bool :=
  should_create_new_version self `or` should_update_settings (flags self).

(** [should_run_test]: [in] and [not] give a [bool], and so does their
    [and]. *)
Definition should_run_test `{!ModelSchema} (self : ModelInfo) : bool :=
  bool_decide (TEST_KEY ∈ dom (metadata self))
  && negb (truthy (get_value self TEST_KEY [TEST_SKIP_KEY])).

(** ** The rest of [ModelInfo] and of its use *)

Global Instance Path_countable : Countable Path.
Proof.
  refine (inj_countable' (λ p, (is_absolute p, parts p))
            (λ ap, mkPath ap.1 ap.2) _).
  by intros [].
Defined.

(** [paths_under_model_by_relative]: the [set] of the [under_model] of the
    tracked files whose [relative_to] is the given one. *)
Definition paths_under_model_by_relative (self : ModelInfo)
  (relative_to_ : RelativeTo) : gset Path :=
  list_to_set
    (under_model <$>
       filter (λ p, relative_to p = relative_to_)
         (dict_items (model_file_paths self)).*2).

(** [self] after calls on [self.file_changes]. *)
Definition with_file_changes (self : ModelInfo) (fc : FileChanges)
  : ModelInfo :=
  {| _yaml_filepath := _yaml_filepath self;
     _model_path := _model_path self;
     _metadata := _metadata self;
     _model_file_paths := _model_file_paths self;
     file_changes := fc;
     flags := flags self |}.

(** The descriptors that the calls of a run add, and the identifiers they
    extend with, in the order of the calls. *)
Definition calls_changed (calls : list FileChanges_call)
  : list ModelFilePath :=
  calls ≫= λ c,
    match c with
    | Call_add_changed p => [p]
    | Call_extend_deleted _ => []
    end.

Definition calls_deleted (calls : list FileChanges_call) : list string :=
  calls ≫= λ c,
    match c with
    | Call_add_changed _ => []
    | Call_extend_deleted l => l
    end.

(** The elements of [l] that are not in [seen], each at its first
    occurrence. *)
Fixpoint first_occurrences {K} `{!EqDecision K} (seen l : list K) : list K :=
  match l with
  | [] => []
  | k :: l' =>
      if decide (k ∈ seen) then first_occurrences seen l'
      else k :: first_occurrences (seen ++ [k]) l'
  end.

(** [path] is the last path of [paths] with its canonical form. *)
Definition last_spelling `{!FileSystem} (paths : list Path) (path : Path)
  : Prop :=
  ∃ before after,
    paths = before ++ path :: after
    ∧ Forall (λ q, resolve q ≠ resolve path) after.

(** ** A schema and a file system to run the model on *)

(** Key names for the examples; "test", "skip" and "settings" are the names
    the specification gives. *)
Definition example_schema : ModelSchema :=
  {| MODEL_ID_KEY := "user_provided_model_id";
     SETTINGS_SECTION_KEY := "settings";
     VERSION_KEY := "version";
     MEMORY_KEY := "memory";
     REPLICAS_KEY := "replicas";
     TEST_KEY := "test";
     TEST_SKIP_KEY := "skip" |}.

(** Lexical normalisation: [.] is dropped and [..] removes the component
    before it. *)
Fixpoint normalize (acc ps : list string) : list string :=
  match ps with
  | [] => acc
  | c :: ps' =>
      if decide (c = ".") then normalize acc ps'
      else if decide (c = "..") then normalize (removelast acc) ps'
      else normalize (acc ++ [c]) ps'
  end.

(** A file system without symbolic links, with working directory [cwd]. *)
Definition lexical_fs (cwd : list string) : FileSystem :=
  λ p, mkPath true
         (normalize [] (if is_absolute p then parts p else cwd ++ parts p)).

Definition repo_root : Path := mkPath true ["repo"].
Definition m1_root : Path := mkPath true ["repo"; "models"; "m1"].
Definition m1_yaml : Path := mkPath true ["repo"; "models"; "m1"; "model.yaml"].
Definition m1_custom_py : Path :=
  mkPath true ["repo"; "models"; "m1"; "custom.py"].
Definition m1_custom_py_rel : Path :=
  mkPath false ["."; "models"; "m1"; "custom.py"].
Definition m1_score_py : Path :=
  mkPath true ["repo"; "models"; "m1"; "score.py"].
Definition common_lib_py : Path := mkPath true ["repo"; "common"; "lib.py"].
Definition outside_py : Path := mkPath true ["tmp"; "x.py"].

Definition m1_metadata : gmap string value :=
  {[ "user_provided_model_id" := VStr "m1" ]}.

Definition m1 : ModelInfo := ModelInfo_init m1_yaml m1_root m1_metadata.

(** The working directory of the examples is the repository root. *)
Definition example_fs : FileSystem := lexical_fs ["repo"].

(** A full scan of the model, a smaller one, and one that names custom.py
    three times: by its absolute path, relative to the working directory,
    and through a detour. *)
Definition m1_custom_py_detour : Path :=
  mkPath true ["repo"; "models"; "m1"; "custom.py"; "old"; ".."].

Definition scan_full : list Path :=
  [m1_custom_py; m1_score_py; common_lib_py].
Definition scan_small : list Path := [m1_custom_py].
Definition scan_spellings : list Path :=
  [m1_custom_py; m1_custom_py_rel; m1_score_py; m1_custom_py_detour].

(** The descriptor of custom.py, and a record whose metadata lacks the
    model's identifier but which tracks that file. *)
Definition m1_custom_py_descriptor : ModelFilePath :=
  mkModelFilePath "custom.py" m1_custom_py (mkPath false ["custom.py"])
    UNDER_MODEL_ROOT.

Definition anonymous_model : ModelInfo :=
  with_model_file_paths (ModelInfo_init m1_yaml m1_root ∅)
    [(m1_custom_py, m1_custom_py_descriptor)].

(** A walk over a diff: one deleted file, then one changed file. *)
Definition m1_calls : list FileChanges_call :=
  [Call_extend_deleted ["f1"]; Call_add_changed m1_custom_py_descriptor].

(** * Properties *)

(** ** Truth values and [or] *)

Lemma truthy_por {A B} `{!Truthy A, !Truthy B} (a : A) (b : B) :
  truthy (a `or` b) = truthy a || truthy b.
Proof.
  unfold por. destruct (truthy a) eqn:Ha; simpl.
  - exact Ha.
  - reflexivity.
Qed.

Lemma truthy_list_nonempty {A} (l : list A) : truthy l = true ↔ l ≠ [].
Proof. destruct l; simpl; split; intros; done. Qed.

(** ** Lists *)

Lemma head_filter_Some {A} (P : A → Prop) `{!∀ x, Decision (P x)}
  (l : list A) (x : A) :
  head (filter P l) = Some x ↔
  ∃ before after, l = before ++ x :: after ∧ P x ∧ Forall (λ y, ¬ P y) before.
Proof.
  induction l as [|y l IH]; simpl.
  - split; [done|]. intros (before & after & Heq & _).
    by destruct before.
  - rewrite filter_cons. destruct (decide (P y)) as [Hy|Hy]; simpl.
    + split.
      * intros [= ->]. by exists [], l.
      * intros (before & after & Heq & Hx & Hb).
        destruct before as [|z before]; simplify_eq/=; [done|].
        by apply Forall_cons in Hb as [? _].
    + rewrite IH. split.
      * intros (before & after & -> & Hx & Hb).
        exists (y :: before), after. by repeat constructor.
      * intros (before & after & Heq & Hx & Hb).
        destruct before as [|z before]; simplify_eq/=; [done|].
        apply Forall_cons in Hb as [_ Hb]. by exists before, after.
Qed.

Lemma head_filter_None {A} (P : A → Prop) `{!∀ x, Decision (P x)}
  (l : list A) :
  head (filter P l) = None ↔ Forall (λ y, ¬ P y) l.
Proof.
  induction l as [|y l IH]; simpl.
  - split; [constructor|done].
  - rewrite filter_cons. destruct (decide (P y)) as [Hy|Hy]; simpl.
    + split; [done|]. intros Hall. by apply Forall_cons in Hall as [? _].
    + rewrite IH. split.
      * by constructor.
      * intros Hall. by apply Forall_cons in Hall as [_ ?].
Qed.

(** ** The derived booleans *)

Section derived.
Context `{!ModelSchema}.

(** The triggers that [should_create_new_version] looks at. *)
Lemma should_create_new_version_truthy (self : ModelInfo) :
  truthy (should_create_new_version self) = true ↔
  should_upload_all_files (flags self) = true
  ∨ changed_or_new_files (file_changes self) ≠ []
  ∨ truthy (get_value self VERSION_KEY [MEMORY_KEY]) = true
  ∨ truthy (get_value self VERSION_KEY [REPLICAS_KEY]) = true.
Proof.
  unfold should_create_new_version.
  rewrite !truthy_por, !orb_true_iff, truthy_list_nonempty.
  reflexivity.
Qed.

(** [deleted_file_ids] is not read by [should_create_new_version]. *)
Lemma should_create_new_version_deleted_irrelevant
  (self : ModelInfo) (ids : list string) :
  should_create_new_version
    (mkModelInfo (_yaml_filepath self) (_model_path self) (_metadata self)
       (_model_file_paths self) (extend_deleted (file_changes self) ids)
       (flags self))
  = should_create_new_version self.
Proof. reflexivity. Qed.

(** C1: [should_create_new_version] is claimed to hold as soon as
    [deleted_file_ids] is not empty.  On a record whose only non-default
    field is [deleted_file_ids = ["f1"]] (no flag, no changed file, empty
    metadata) the code gives a false value: the deleted identifiers are not
    among the operands of its [or]. *)
Theorem should_create_new_version_deleted_only
  (yaml_filepath model_path : Path) :
  let self :=
    mkModelInfo yaml_filepath model_path ∅ []
      (extend_deleted FileChanges_init ["f1"]) Flags_init in
  deleted_file_ids (file_changes self) = ["f1"]
  ∧ truthy (should_create_new_version self) = false.
Proof. split; reflexivity. Qed.

(** C8: [is_affected_by_commit] is true exactly when
    [should_create_new_version] is true or the flag [should_update_settings]
    is set. *)
Theorem is_affected_by_commit_iff (self : ModelInfo) :
  truthy (is_affected_by_commit self) = true ↔
  truthy (should_create_new_version self) = true
  ∨ should_update_settings (flags self) = true.
Proof.
  unfold is_affected_by_commit.
  rewrite truthy_por, orb_true_iff. reflexivity.
Qed.

(** C5: [should_run_test] is true exactly when the metadata has a "test"
    section whose "skip" entry is not truthy.  It is false without the
    "test" key, false for [{"test": {"skip": true}}] and true for
    [{"test": {}}]. *)
Theorem should_run_test_iff (self : ModelInfo) :
  (should_run_test self = true ↔
   ∃ section, metadata self !! TEST_KEY = Some section
     ∧ truthy (lookup_chain section [TEST_SKIP_KEY]) = false)
  ∧ (metadata self !! TEST_KEY = None → should_run_test self = false)
  ∧ (∀ y r d fc fl,
       should_run_test
         (mkModelInfo y r {[ TEST_KEY := VDict {[ TEST_SKIP_KEY := VBool true ]} ]}
            d fc fl) = false)
  ∧ (∀ y r d fc fl,
       should_run_test (mkModelInfo y r {[ TEST_KEY := VDict ∅ ]} d fc fl)
       = true).
Proof.
  assert (∀ s : ModelInfo,
    should_run_test s =
    match metadata s !! TEST_KEY with
    | Some section => negb (truthy (lookup_chain section [TEST_SKIP_KEY]))
    | None => false
    end) as Hrun.
  { intros s. unfold should_run_test, get_value, ModelSchema_get_value.
    cbn [lookup_chain].
    destruct (metadata s !! TEST_KEY) as [section|] eqn:Hsec.
    - rewrite bool_decide_eq_true_2; [done|].
      apply elem_of_dom. by exists section.
    - rewrite bool_decide_eq_false_2; [done|].
      by apply not_elem_of_dom. }
  repeat split.
  - rewrite Hrun. destruct (metadata self !! TEST_KEY) as [section|]; [|done].
    intros Hn. exists section. split; [done|]. by apply negb_true_iff.
  - intros (section & Hsec & Hskip). rewrite Hrun, Hsec.
    by apply negb_true_iff.
  - intros Hnone. by rewrite Hrun, Hnone.
  - intros. rewrite Hrun. unfold metadata; simpl.
    rewrite lookup_singleton_eq. cbn [lookup_chain].
    by rewrite lookup_singleton_eq.
  - intros. rewrite Hrun. unfold metadata; simpl.
    rewrite lookup_singleton_eq. cbn [lookup_chain].
    by rewrite lookup_empty.
Qed.

End derived.

(** ** Metadata lookups *)

Lemma lookup_chain_missing (v : value) (keys : list string) :
  chain_missing v keys = true → lookup_chain v keys = VNone.
Proof.
  revert v. induction keys as [|k keys IH]; intros v; simpl.
  - discriminate.
  - destruct v as [| | | | |d]; try reflexivity.
    destruct (d !! k) as [v'|]; [apply IH|reflexivity].
Qed.

Section lookups.
Context `{!ModelSchema}.

(** C6: [get_value] and [get_settings_value] give [None] whenever a key of
    the chain is missing, and a missing key never makes them raise (they are
    total functions into the values);  [get_settings_value] is the lookup of
    the same chain below the top-level settings key. *)
Theorem get_value_missing_key
  (self : ModelInfo) (key : string) (sub_keys : list string) :
  (chain_missing (VDict (metadata self)) (key :: sub_keys) = true →
   get_value self key sub_keys = VNone)
  ∧ (chain_missing (VDict (metadata self))
       (SETTINGS_SECTION_KEY :: key :: sub_keys) = true →
     get_settings_value self key sub_keys = VNone)
  ∧ get_settings_value self key sub_keys
    = lookup_chain (get_value self SETTINGS_SECTION_KEY []) (key :: sub_keys).
Proof.
  unfold get_settings_value, get_value, ModelSchema_get_value.
  split; [|split].
  - apply lookup_chain_missing.
  - apply lookup_chain_missing.
  - cbn [lookup_chain].
    destruct (metadata self !! SETTINGS_SECTION_KEY) as [section|]; reflexivity.
Qed.

End lookups.

(** ** The main program *)

(** C7: [main_program_filepath] gives the first descriptor, in the iteration
    order of the dictionary, whose name is "custom.py", and [None] when
    there is none;  [main_program_exists] is false on an empty file set and
    true exactly when some tracked file has that name. *)
Theorem main_program_filepath_first (self : ModelInfo) :
  (∀ p, main_program_filepath self = Some p ↔
     ∃ before k after,
       dict_items (model_file_paths self) = before ++ (k, p) :: after
       ∧ name p = "custom.py"
       ∧ Forall (λ kp, name kp.2 ≠ "custom.py") before)
  ∧ (main_program_filepath self = None ↔
     Forall (λ kp, name kp.2 ≠ "custom.py")
       (dict_items (model_file_paths self)))
  ∧ (∀ y r md fc fl, main_program_exists (mkModelInfo y r md [] fc fl) = false)
  ∧ (main_program_exists self = true ↔
     Exists (λ kp, name kp.2 = "custom.py")
       (dict_items (model_file_paths self))).
Proof.
  unfold main_program_exists, main_program_filepath, dict_items.
  generalize (model_file_paths self). intros d.
  split; [|split; [|split]].
  - intros p. rewrite head_filter_Some. split.
    + intros (before & after & Heq & Hp & Hb).
      apply fmap_app_inv in Heq as (b' & rest & -> & Hrest & ->).
      symmetry in Hrest.
      apply fmap_cons_inv in Hrest as ([k p'] & a' & -> & -> & ->).
      exists b', k, a'. split; [done|]. split; [done|].
      rewrite Forall_forall in Hb. apply Forall_forall.
      intros kp Hin. apply Hb, list_elem_of_fmap. by exists kp.
    + intros (before & k & after & -> & Hp & Hb).
      exists (before.*2), (after.*2). rewrite fmap_app, fmap_cons.
      split; [done|]. split; [done|].
      rewrite Forall_forall in Hb. apply Forall_forall.
      intros q (kp & -> & Hin)%list_elem_of_fmap. by apply Hb.
  - rewrite head_filter_None, Forall_fmap. reflexivity.
  - intros. reflexivity.
  - rewrite bool_decide_eq_true. split.
    + intros Hne.
      destruct (head (filter (λ p, name p = "custom.py") d.*2)) as [p|] eqn:Hh;
        [|done].
      apply head_filter_Some in Hh as (before & after & Heq & Hp & _).
      assert (p ∈ d.*2) as (kp & -> & Hin)%list_elem_of_fmap.
      { rewrite Heq. apply elem_of_app. right. by left. }
      apply Exists_exists. by exists kp.
    + intros (kp & Hin & Hn)%Exists_exists Hnone.
      apply head_filter_None in Hnone. rewrite Forall_forall in Hnone.
      apply (Hnone kp.2); [|done]. apply list_elem_of_fmap. by exists kp.
Qed.

(** ** File changes *)

Lemma FileChanges_do_prefix (self : FileChanges) (c : FileChanges_call) :
  changed_or_new_files self `prefix_of`
    changed_or_new_files (FileChanges_do self c)
  ∧ deleted_file_ids self `prefix_of` deleted_file_ids (FileChanges_do self c).
Proof.
  destruct c as [p|l]; simpl; split; try done; by apply prefix_app_r.
Qed.

(** C9: [add_changed] puts the descriptor at the end of
    [changed_or_new_files], whether or not it is already there, and leaves
    [deleted_file_ids] as it is;  [extend_deleted] puts the identifiers, in
    their order, at the end of [deleted_file_ids] and leaves
    [changed_or_new_files] as it is;  after any run of these calls both lists
    still start with what they held before. *)
Theorem FileChanges_append_only (self : FileChanges) :
  (∀ d,
     changed_or_new_files (add_changed self d)
     = changed_or_new_files self ++ [d]
     ∧ changed_or_new_files (add_changed (add_changed self d) d)
       = changed_or_new_files self ++ [d; d]
     ∧ deleted_file_ids (add_changed self d) = deleted_file_ids self)
  ∧ (∀ L,
       deleted_file_ids (extend_deleted self L) = deleted_file_ids self ++ L
       ∧ changed_or_new_files (extend_deleted self L)
         = changed_or_new_files self)
  ∧ (∀ calls,
       changed_or_new_files self `prefix_of`
         changed_or_new_files (FileChanges_run self calls)
       ∧ deleted_file_ids self `prefix_of`
           deleted_file_ids (FileChanges_run self calls)).
Proof.
  split; [|split].
  - intros d. simpl. by rewrite <-app_assoc.
  - intros L. by simpl.
  - intros calls. revert self. unfold FileChanges_run.
    induction calls as [|c calls IH]; intros self; simpl.
    + done.
    + destruct (IH (FileChanges_do self c)) as [Hc Hd].
      destruct (FileChanges_do_prefix self c) as [Hc' Hd'].
      split; [by trans (changed_or_new_files (FileChanges_do self c))
             |by trans (deleted_file_ids (FileChanges_do self c))].
Qed.

(** ** Ordered dictionaries *)

Section dict_facts.
Context {K V : Type} `{!EqDecision K}.
Implicit Types (d : dict K V) (k : K) (v : V).

Lemma dict_get_set_eq d k v : dict_get (dict_set d k v) k = Some v.
Proof.
  induction d as [|[k' v'] d IH]; simpl.
  - by rewrite decide_True.
  - destruct (decide (k' = k)) as [->|Hne]; simpl.
    + by rewrite decide_True.
    + by rewrite decide_False.
Qed.

Lemma dict_get_set_ne d k k' v :
  k ≠ k' → dict_get (dict_set d k v) k' = dict_get d k'.
Proof.
  intros Hne. induction d as [|[k0 v0] d IH]; simpl.
  - by rewrite decide_False.
  - destruct (decide (k0 = k)) as [->|Hne0]; simpl.
    + by rewrite !decide_False.
    + by rewrite IH.
Qed.

Lemma dict_keys_set d k v :
  dict_keys (dict_set d k v)
  = if decide (k ∈ dict_keys d) then dict_keys d else dict_keys d ++ [k].
Proof.
  unfold dict_keys. induction d as [|[k' v'] d IH].
  - cbn [dict_set fmap list_fmap fst].
    destruct (decide (k ∈ [])) as [Hin|_]; [|done].
    by apply elem_of_nil in Hin.
  - cbn [dict_set]. destruct (decide (k' = k)) as [->|Hne].
    + rewrite !fmap_cons. cbn [fst].
      destruct (decide (k ∈ k :: d.*1)) as [_|Hnin]; [done|].
      destruct Hnin. by left.
    + rewrite !fmap_cons, IH. cbn [fst].
      destruct (decide (k ∈ d.*1)) as [Hin|Hnin];
        destruct (decide (k ∈ k' :: d.*1)) as [Hin'|Hnin']; try done.
      * destruct Hnin'. by right.
      * apply elem_of_cons in Hin' as [?|?]; congruence.
Qed.

Lemma dict_keys_set_elem d k v k' :
  k' ∈ dict_keys (dict_set d k v) ↔ k' = k ∨ k' ∈ dict_keys d.
Proof.
  rewrite dict_keys_set. destruct (decide (k ∈ dict_keys d)).
  - split; [by right|]. by intros [->|?].
  - rewrite elem_of_app, list_elem_of_singleton. tauto.
Qed.

Lemma dict_keys_set_NoDup d k v :
  NoDup (dict_keys d) → NoDup (dict_keys (dict_set d k v)).
Proof.
  intros Hd. rewrite dict_keys_set. destruct (decide (k ∈ dict_keys d)).
  - done.
  - apply NoDup_app. split; [done|]. split; [|apply NoDup_singleton].
    intros x Hx ->%list_elem_of_singleton. done.
Qed.

Lemma dict_set_items d k v kp :
  kp ∈ dict_items (dict_set d k v) → kp ∈ dict_items d ∨ kp = (k, v).
Proof.
  unfold dict_items. induction d as [|[k' v'] d IH]; simpl.
  - intros ->%list_elem_of_singleton. by right.
  - destruct (decide (k' = k)) as [->|Hne].
    + intros [->|Hin]%elem_of_cons; [by right|]. left. by right.
    + intros [->|Hin]%elem_of_cons; [left; by left|].
      destruct (IH Hin) as [?|?]; [left; by right|by right].
Qed.

End dict_facts.

(** ** [set_model_paths] *)

Section set_model_paths_facts.
Context `{!ModelSchema, !FileSystem}.
Implicit Types (self : ModelInfo) (d : dict Path ModelFilePath).
Implicit Types (paths : list Path) (root : Path).

Lemma ModelFilePath_init_resolved path model_root root model_filepath :
  ModelFilePath_init path model_root root = Ok model_filepath →
  resolved model_filepath = resolve path.
Proof.
  unfold ModelFilePath_init. intros Hinit.
  destruct (path_below (resolve path) model_root);
    [|destruct (path_below (resolve path) root)];
    by simplify_eq.
Qed.

Lemma with_model_file_paths_twice self d d' :
  with_model_file_paths (with_model_file_paths self d) d'
  = with_model_file_paths self d'.
Proof. reflexivity. Qed.

Lemma with_model_file_paths_same self :
  with_model_file_paths self (_model_file_paths self) = self.
Proof. by destruct self. Qed.

(** The loop only writes the dictionary, as [add_paths] does. *)
Lemma for_each_add_paths paths root self :
  for_each paths (λ path,
    model_root ← read model_path;
    model_filepath ← eval (ModelFilePath_init path model_root root);
    d ← read _model_file_paths;
    assign_model_file_paths
      (dict_set d (resolved model_filepath) model_filepath)) self
  = let '(r, d') :=
      add_paths (model_path self) root paths (_model_file_paths self) in
    (r, with_model_file_paths self d').
Proof.
  revert self. induction paths as [|path paths IH]; intros self.
  - simpl. by rewrite with_model_file_paths_same.
  - cbn [for_each add_paths]. unfold mbind at 1, M_bind at 1.
    unfold mbind at 1, M_bind at 1, read at 1. cbn [id].
    unfold mbind at 1, M_bind at 1, eval at 1.
    destruct (ModelFilePath_init path (model_path self) root)
      as [model_filepath|e] eqn:Hinit.
    + unfold mbind at 1, M_bind at 1, read at 1.
      unfold assign_model_file_paths at 1.
      rewrite IH. cbn [model_path _model_path _model_file_paths].
      fold (model_path self).
      destruct (add_paths (model_path self) root paths
                  (dict_set (_model_file_paths self)
                     (resolved model_filepath) model_filepath)) as [r d'].
      reflexivity.
    + by rewrite with_model_file_paths_same.
Qed.

Lemma set_model_paths_unfold paths root self :
  set_model_paths paths root self
  = match metadata self !! MODEL_ID_KEY with
    | None => (Raise (KeyError MODEL_ID_KEY), self)
    | Some _ =>
        let '(r, d') := add_paths (model_path self) root paths [] in
        (r, with_model_file_paths self d')
    end.
Proof.
  unfold set_model_paths.
  unfold mbind at 1, M_bind at 1. unfold mbind at 1, M_bind at 1, read at 1.
  unfold eval at 1, user_provided_id. cbn [id].
  destruct (metadata self !! MODEL_ID_KEY) as [v|]; [|done].
  unfold mbind at 1, M_bind at 1, assign_model_file_paths at 1.
  rewrite for_each_add_paths. cbn [model_path _model_path _model_file_paths].
  fold (model_path self).
  by destruct (add_paths (model_path self) root paths []).
Qed.

Lemma add_paths_app model_root root paths1 paths2 d :
  add_paths model_root root (paths1 ++ paths2) d
  = match add_paths model_root root paths1 d with
    | (Ok _, d1) => add_paths model_root root paths2 d1
    | (Raise e, d1) => (Raise e, d1)
    end.
Proof.
  revert d. induction paths1 as [|path paths1 IH]; intros d; simpl.
  - done.
  - by destruct (ModelFilePath_init path model_root root).
Qed.

Lemma add_paths_ok model_root root paths d :
  Forall (classifies model_root root) paths →
  ∃ d', add_paths model_root root paths d = (Ok (), d').
Proof.
  intros Hall. revert d.
  induction Hall as [|path paths [model_filepath Hinit] _ IH]; intros d; simpl.
  - by exists d.
  - rewrite Hinit. apply IH.
Qed.

Lemma add_paths_Ok_classifies model_root root paths d d' :
  add_paths model_root root paths d = (Ok (), d') →
  Forall (classifies model_root root) paths.
Proof.
  revert d. induction paths as [|path paths IH]; intros d; simpl.
  - constructor.
  - destruct (ModelFilePath_init path model_root root)
      as [model_filepath|e] eqn:Hinit; [|done].
    intros Hadd. constructor; [by exists model_filepath|by eapply IH].
Qed.

(** Every key after the loop was there before it or is the canonical form of
    an input path. *)
Lemma add_paths_keys_sub model_root root paths d r d' k :
  add_paths model_root root paths d = (r, d') →
  k ∈ dict_keys d' → k ∈ dict_keys d ∨ k ∈ resolve <$> paths.
Proof.
  revert d. induction paths as [|path paths IH]; intros d; simpl.
  - intros [= _ <-]. by left.
  - destruct (ModelFilePath_init path model_root root)
      as [model_filepath|e] eqn:Hinit.
    + intros Hadd Hk. destruct (IH _ Hadd Hk) as [Hin|Hin].
      * apply dict_keys_set_elem in Hin as [->|Hin]; [|by left].
        right. rewrite (ModelFilePath_init_resolved _ _ _ _ Hinit). by left.
      * right. by right.
    + intros [= _ <-]. by left.
Qed.

(** When the loop finishes, every old key is kept and every input path has
    its canonical form among the keys. *)
Lemma add_paths_keys_sup model_root root paths d d' k :
  add_paths model_root root paths d = (Ok (), d') →
  k ∈ dict_keys d ∨ k ∈ resolve <$> paths → k ∈ dict_keys d'.
Proof.
  revert d. induction paths as [|path paths IH]; intros d; simpl.
  - intros [= <-] [Hin|Hin]; [done|]. by apply elem_of_nil in Hin.
  - destruct (ModelFilePath_init path model_root root)
      as [model_filepath|e] eqn:Hinit; [|done].
    apply ModelFilePath_init_resolved in Hinit as Hres.
    intros Hadd Hk. apply (IH _ Hadd).
    rewrite dict_keys_set_elem, Hres.
    destruct Hk as [Hin|[->|Hin]%elem_of_cons]; auto.
Qed.

Lemma add_paths_canonical model_root root paths d r d' :
  add_paths model_root root paths d = (r, d') →
  canonical_keys d → canonical_keys d'.
Proof.
  revert d. induction paths as [|path paths IH]; intros d; simpl.
  - by intros [= _ <-].
  - destruct (ModelFilePath_init path model_root root)
      as [model_filepath|e] eqn:Hinit; [|by intros [= _ <-]].
    apply ModelFilePath_init_resolved in Hinit as Hres.
    intros Hadd [Hnodup Hitems]. apply (IH _ Hadd). split.
    + by apply dict_keys_set_NoDup.
    + apply Forall_forall. intros kp [Hin| ->]%dict_set_items.
      * rewrite Forall_forall in Hitems. by apply Hitems.
      * simpl. split; [done|]. by exists path.
Qed.

Lemma canonical_keys_empty : canonical_keys [].
Proof. split; constructor. Qed.

(** A key that no input path resolves to keeps its entry. *)
Lemma add_paths_get_other model_root root paths d r d' k :
  add_paths model_root root paths d = (r, d') →
  Forall (λ q, resolve q ≠ k) paths →
  dict_get d' k = dict_get d k.
Proof.
  revert d. induction paths as [|path paths IH]; intros d; simpl.
  - by intros [= _ <-].
  - destruct (ModelFilePath_init path model_root root)
      as [model_filepath|e] eqn:Hinit; [|by intros [= _ <-]].
    apply ModelFilePath_init_resolved in Hinit as Hres.
    intros Hadd [Hne Hall]%Forall_cons.
    rewrite (IH _ Hadd Hall). apply dict_get_set_ne. by rewrite Hres.
Qed.

(** The entry of a key comes from the last path that resolves to it. *)
Lemma add_paths_get_last model_root root before path after d d' :
  add_paths model_root root (before ++ path :: after) d = (Ok (), d') →
  Forall (λ q, resolve q ≠ resolve path) after →
  ∃ model_filepath,
    ModelFilePath_init path model_root root = Ok model_filepath
    ∧ dict_get d' (resolve path) = Some model_filepath.
Proof.
  rewrite add_paths_app.
  destruct (add_paths model_root root before d) as [[[]|e] d1]; [|done].
  simpl.
  destruct (ModelFilePath_init path model_root root)
    as [model_filepath|e] eqn:Hinit; [|done].
  apply ModelFilePath_init_resolved in Hinit as Hres.
  intros Hadd Hafter. exists model_filepath. split; [done|].
  rewrite (add_paths_get_other _ _ _ _ _ _ _ Hadd Hafter).
  rewrite <-Hres. apply dict_get_set_eq.
Qed.

End set_model_paths_facts.

Lemma filter_eq_not_elem {A} `{!EqDecision A} (l : list A) (x : A) :
  x ∉ l → filter (λ y, y = x) l = [].
Proof.
  induction l as [|y l IH]; [done|].
  intros [Hne Hnin]%not_elem_of_cons.
  rewrite filter_cons, decide_False by done. by apply IH.
Qed.

Lemma NoDup_filter_eq {A} `{!EqDecision A} (l : list A) (x : A) :
  NoDup l → x ∈ l → filter (λ y, y = x) l = [x].
Proof.
  induction 1 as [|y l Hy Hl IH]; intros Hin.
  - by apply elem_of_nil in Hin.
  - rewrite filter_cons. destruct (decide (y = x)) as [->|Hne].
    + f_equal. by apply filter_eq_not_elem.
    + apply IH. by apply elem_of_cons in Hin as [?|?].
Qed.

Section set_model_paths_claims.
Context `{!ModelSchema, !FileSystem}.
Implicit Types (self : ModelInfo) (P : list Path) (root : Path).

(** What a call that gets past the logging statement leaves: the dictionary
    built from the empty one, whatever it held before. *)
Lemma set_model_paths_Ok_inv P root self self' :
  set_model_paths P root self = (Ok (), self') →
  ∃ d', add_paths (model_path self) root P [] = (Ok (), d')
        ∧ self' = with_model_file_paths self d'.
Proof.
  rewrite set_model_paths_unfold.
  destruct (metadata self !! MODEL_ID_KEY); [|done].
  destruct (add_paths (model_path self) root P []) as [r d'].
  intros [= -> <-]. by exists d'.
Qed.

Lemma set_model_paths_Ok P root self :
  is_Some (metadata self !! MODEL_ID_KEY) →
  Forall (classifies (model_path self) root) P →
  ∃ d', add_paths (model_path self) root P [] = (Ok (), d')
        ∧ set_model_paths P root self = (Ok (), with_model_file_paths self d').
Proof.
  intros [v Hid] Hall.
  destruct (add_paths_ok _ _ _ [] Hall) as [d' Hadd].
  exists d'. split; [done|].
  by rewrite set_model_paths_unfold, Hid, Hadd.
Qed.

(** C2: [set_model_paths] replaces the dictionary.  After a call with [P1]
    and a call with [P2], the dictionary is the one that a call with [P2]
    builds on a record just constructed, and its keys are the canonical
    forms of the paths of [P2] and nothing else, also when [P2] is a part of
    [P1]. *)
Theorem set_model_paths_full_replace self P1 P2 root :
  is_Some (metadata self !! MODEL_ID_KEY) →
  Forall (classifies (model_path self) root) P1 →
  Forall (classifies (model_path self) root) P2 →
  ∃ self1 self2 alone,
    set_model_paths P1 root self = (Ok (), self1)
    ∧ set_model_paths P2 root self1 = (Ok (), self2)
    ∧ set_model_paths P2 root
        (ModelInfo_init (yaml_filepath self) (model_path self) (metadata self))
      = (Ok (), alone)
    ∧ model_file_paths self2 = model_file_paths alone
    ∧ ∀ k, k ∈ dict_keys (model_file_paths self2) ↔ k ∈ resolve <$> P2.
Proof.
  intros Hid H1 H2.
  destruct (set_model_paths_Ok P1 root self Hid H1) as (d1 & _ & Hcall1).
  destruct (set_model_paths_Ok P2 root (with_model_file_paths self d1) Hid H2)
    as (d2 & Hadd2 & Hcall2).
  destruct (set_model_paths_Ok P2 root
              (ModelInfo_init (yaml_filepath self) (model_path self)
                 (metadata self)) Hid H2) as (d2' & Hadd2' & Hcall2').
  cbn [ModelInfo_init model_path _model_path with_model_file_paths
       assign_model_file_paths snd] in Hadd2, Hadd2'.
  fold (model_path self) in Hadd2, Hadd2'.
  assert (d2' = d2) as -> by congruence.
  eexists _, _, _. split; [exact Hcall1|]. split; [exact Hcall2|].
  split; [exact Hcall2'|]. split; [reflexivity|].
  intros k. cbn [with_model_file_paths assign_model_file_paths snd
                 model_file_paths _model_file_paths].
  split.
  - intros Hk. destruct (add_paths_keys_sub _ _ _ _ _ _ _ Hadd2 Hk) as [Hin|Hin].
    + by apply elem_of_nil in Hin.
    + done.
  - intros Hk. apply (add_paths_keys_sup _ _ _ _ _ _ Hadd2). by right.
Qed.

(** C3: a second call of [set_model_paths] with the same paths returns and
    leaves the record, and so the dictionary, as the first call left it
    (whether or not the collection of paths is empty). *)
Theorem set_model_paths_idempotent self P root :
  is_Some (metadata self !! MODEL_ID_KEY) →
  Forall (classifies (model_path self) root) P →
  ∃ self1 self2,
    set_model_paths P root self = (Ok (), self1)
    ∧ set_model_paths P root self1 = (Ok (), self2)
    ∧ model_file_paths self2 = model_file_paths self1
    ∧ self2 = self1.
Proof.
  intros Hid Hall.
  destruct (set_model_paths_Ok P root self Hid Hall) as (d1 & Hadd1 & Hcall1).
  destruct (set_model_paths_Ok P root (with_model_file_paths self d1) Hid Hall)
    as (d2 & Hadd2 & Hcall2).
  cbn [model_path _model_path with_model_file_paths assign_model_file_paths
       snd] in Hadd2.
  fold (model_path self) in Hadd2.
  assert (d2 = d1) as -> by congruence.
  rewrite with_model_file_paths_twice in Hcall2.
  eexists _, _. split; [exact Hcall1|]. split; [exact Hcall2|]. done.
Qed.

(** C4: the keys of the dictionary are canonical paths.  This holds on a
    record just constructed and is kept by every call of [set_model_paths],
    whatever its outcome;  when the call returns, the keys are the canonical
    forms of the input paths, and two input paths with the same canonical
    form (two spellings of one file) share a single key. *)
Theorem set_model_paths_canonical_keys self P root :
  (∀ y r md, canonical_keys (model_file_paths (ModelInfo_init y r md)))
  ∧ (canonical_keys (model_file_paths self) →
     canonical_keys (model_file_paths (set_model_paths P root self).2))
  ∧ (∀ self', set_model_paths P root self = (Ok (), self') →
       canonical_keys (model_file_paths self')
       ∧ (∀ k, k ∈ dict_keys (model_file_paths self') ↔ k ∈ resolve <$> P)
       ∧ (∀ p1 p2, p1 ∈ P → p2 ∈ P → resolve p1 = resolve p2 →
            filter (λ k, k = resolve p1 ∨ k = resolve p2)
              (dict_keys (model_file_paths self'))
            = [resolve p1])).
Proof.
  split; [|split].
  - intros. apply canonical_keys_empty.
  - intros Hinv. rewrite set_model_paths_unfold.
    destruct (metadata self !! MODEL_ID_KEY); [|done].
    destruct (add_paths (model_path self) root P []) as [r d'] eqn:Hadd.
    simpl. eapply add_paths_canonical; [exact Hadd|apply canonical_keys_empty].
  - intros self' (d' & Hadd & ->)%set_model_paths_Ok_inv.
    cbn [with_model_file_paths assign_model_file_paths snd
         model_file_paths _model_file_paths].
    assert (canonical_keys d') as Hcan.
    { eapply add_paths_canonical; [exact Hadd|apply canonical_keys_empty]. }
    assert (∀ k, k ∈ dict_keys d' ↔ k ∈ resolve <$> P) as Hkeys.
    { intros k. split.
      - intros Hk.
        destruct (add_paths_keys_sub _ _ _ _ _ _ _ Hadd Hk) as [Hin|Hin];
          [by apply elem_of_nil in Hin|done].
      - intros Hk. apply (add_paths_keys_sup _ _ _ _ _ _ Hadd). by right. }
    split; [done|]. split; [done|].
    intros p1 p2 Hp1 _ <-.
    rewrite (list_filter_iff _ (λ k, k = resolve p1)) by (intros; tauto).
    apply NoDup_filter_eq; [apply Hcan|].
    apply Hkeys. by apply list_elem_of_fmap_2.
Qed.

(** C10: when several input paths have the same canonical form, the entry
    of that key is the descriptor of the last of them, and [set_model_paths]
    leaves [file_changes], [flags] and the metadata as they were.  For a
    record whose metadata holds the model's identifier and paths that the
    classification accepts, the call returns, with these two properties;
    and the three attributes are also kept by a call that raises. *)
Theorem set_model_paths_last_wins self P root :
  is_Some (metadata self !! MODEL_ID_KEY) →
  Forall (classifies (model_path self) root) P →
  (∃ self',
     set_model_paths P root self = (Ok (), self')
     ∧ (file_changes self' = file_changes self
        ∧ flags self' = flags self
        ∧ metadata self' = metadata self)
     ∧ ∀ before p after,
         P = before ++ p :: after →
         Forall (λ q, resolve q ≠ resolve p) after →
         ∃ model_filepath,
           ModelFilePath_init p (model_path self) root = Ok model_filepath
           ∧ dict_get (model_file_paths self') (resolve p)
             = Some model_filepath)
  ∧ (∀ P' r self'',
       set_model_paths P' root self = (r, self'') →
       file_changes self'' = file_changes self
       ∧ flags self'' = flags self
       ∧ metadata self'' = metadata self).
Proof.
  intros Hid Hall. split.
  - destruct (set_model_paths_Ok P root self Hid Hall) as (d' & Hadd & Hcall).
    exists (with_model_file_paths self d').
    split; [exact Hcall|]. split; [done|].
    intros before p after -> Hafter.
    cbn [with_model_file_paths assign_model_file_paths snd
         model_file_paths _model_file_paths].
    by eapply add_paths_get_last.
  - intros P' r self'' Hcall. rewrite set_model_paths_unfold in Hcall.
    destruct (metadata self !! MODEL_ID_KEY); [|by simplify_eq].
    destruct (add_paths (model_path self) root P' []) as [r' d'].
    by simplify_eq.
Qed.

End set_model_paths_claims.

(** ** The model at work *)

Section examples.
Local Existing Instance example_schema.
Local Existing Instance example_fs.

Lemma m1_has_id : is_Some (metadata m1 !! MODEL_ID_KEY).
Proof. by exists (VStr "m1"). Qed.

Lemma scan_full_classifies :
  Forall (classifies (model_path m1) repo_root) scan_full.
Proof. repeat constructor; eexists; reflexivity. Qed.

Lemma scan_small_classifies :
  Forall (classifies (model_path m1) repo_root) scan_small.
Proof. repeat constructor; eexists; reflexivity. Qed.

(** A path outside the repository makes [set_model_paths] raise, with the
    entries written before it kept. *)
Example set_model_paths_outside :
  set_model_paths [m1_custom_py; outside_py; m1_score_py] repo_root m1
  = (Raise (ClassificationError outside_py),
     with_model_file_paths m1
       [(m1_custom_py,
         mkModelFilePath "custom.py" m1_custom_py (mkPath false ["custom.py"])
           UNDER_MODEL_ROOT)]).
Proof. reflexivity. Qed.

(** Without the model's identifier in the metadata nothing is written. *)
Example set_model_paths_no_id :
  set_model_paths scan_full repo_root (ModelInfo_init m1_yaml m1_root ∅)
  = (Raise (KeyError MODEL_ID_KEY), ModelInfo_init m1_yaml m1_root ∅).
Proof. reflexivity. Qed.

(** The three spellings of custom.py give one key, at the position of the
    first and with the descriptor of the last. *)
Example set_model_paths_spellings :
  model_file_paths (set_model_paths scan_spellings repo_root m1).2
  = [(m1_custom_py,
      mkModelFilePath ".." m1_custom_py (mkPath false ["custom.py"])
        UNDER_MODEL_ROOT);
     (m1_score_py,
      mkModelFilePath "score.py" m1_score_py (mkPath false ["score.py"])
        UNDER_MODEL_ROOT)].
Proof. reflexivity. Qed.

Lemma set_model_paths_full_replace_witness :
  ∃ self1 self2 alone,
    set_model_paths scan_full repo_root m1 = (Ok (), self1)
    ∧ set_model_paths scan_small repo_root self1 = (Ok (), self2)
    ∧ set_model_paths scan_small repo_root
        (ModelInfo_init (yaml_filepath m1) (model_path m1) (metadata m1))
      = (Ok (), alone)
    ∧ model_file_paths self2 = model_file_paths alone
    ∧ ∀ k, k ∈ dict_keys (model_file_paths self2) ↔ k ∈ resolve <$> scan_small.
Proof.
  apply (set_model_paths_full_replace m1 scan_full scan_small repo_root).
  - exact m1_has_id.
  - exact scan_full_classifies.
  - exact scan_small_classifies.
Defined.

Lemma set_model_paths_idempotent_witness :
  ∃ self1 self2,
    set_model_paths scan_full repo_root m1 = (Ok (), self1)
    ∧ set_model_paths scan_full repo_root self1 = (Ok (), self2)
    ∧ model_file_paths self2 = model_file_paths self1
    ∧ self2 = self1.
Proof.
  apply (set_model_paths_idempotent m1 scan_full repo_root).
  - exact m1_has_id.
  - exact scan_full_classifies.
Defined.

Lemma set_model_paths_canonical_keys_witness :
  filter (λ k, k = resolve m1_custom_py ∨ k = resolve m1_custom_py_rel)
    (dict_keys (model_file_paths (set_model_paths scan_spellings repo_root m1).2))
  = [resolve m1_custom_py].
Proof.
  apply (set_model_paths_canonical_keys m1 scan_spellings repo_root).
  - reflexivity.
  - by left.
  - right. by left.
  - reflexivity.
Defined.

Lemma scan_spellings_classifies :
  Forall (classifies (model_path m1) repo_root) scan_spellings.
Proof. repeat constructor; eexists; reflexivity. Qed.

Lemma set_model_paths_last_wins_witness :
  (∃ self',
     set_model_paths scan_spellings repo_root m1 = (Ok (), self')
     ∧ (file_changes self' = file_changes m1
        ∧ flags self' = flags m1
        ∧ metadata self' = metadata m1)
     ∧ ∀ before p after,
         scan_spellings = before ++ p :: after →
         Forall (λ q, resolve q ≠ resolve p) after →
         ∃ model_filepath,
           ModelFilePath_init p (model_path m1) repo_root = Ok model_filepath
           ∧ dict_get (model_file_paths self') (resolve p)
             = Some model_filepath)
  ∧ (∀ P' r self'',
       set_model_paths P' repo_root m1 = (r, self'') →
       file_changes self'' = file_changes m1
       ∧ flags self'' = flags m1
       ∧ metadata self'' = metadata m1).
Proof.
  apply (set_model_paths_last_wins m1 scan_spellings repo_root).
  - exact m1_has_id.
  - exact scan_spellings_classifies.
Defined.

Lemma should_run_test_iff_witness : should_run_test m1 = false.
Proof.
  apply (should_run_test_iff m1). reflexivity.
Defined.

Lemma get_value_missing_key_witness :
  get_value m1 VERSION_KEY [MEMORY_KEY] = VNone.
Proof.
  apply (get_value_missing_key m1 VERSION_KEY [MEMORY_KEY]). reflexivity.
Defined.

End examples.

(** * Further properties *)

(** ** Lists and dictionaries *)

Section more_dict_facts.
Context {K V : Type} `{!EqDecision K}.
Implicit Types (d : dict K V) (k : K) (v : V).

Lemma dict_get_Some_elem d k v : dict_get d k = Some v → (k, v) ∈ d.
Proof.
  induction d as [|[k' v'] d IH]; simpl; [done|].
  destruct (decide (k' = k)) as [->|Hne].
  - intros [= ->]. by left.
  - intros Hget. right. by apply IH.
Qed.

Lemma dict_elem_get d k v :
  NoDup (dict_keys d) → (k, v) ∈ d → dict_get d k = Some v.
Proof.
  unfold dict_keys. induction d as [|[k' v'] d IH]; simpl.
  - by intros _ ?%elem_of_nil.
  - intros [Hnin Hd]%NoDup_cons [[= -> ->]|Hin]%elem_of_cons.
    + by rewrite decide_True.
    + rewrite decide_False; [by apply IH|].
      intros ->. apply Hnin. apply list_elem_of_fmap. by exists (k, v).
Qed.

Lemma first_occurrences_length (seen l : list K) :
  (length (first_occurrences seen l) ≤ length l)%nat.
Proof.
  revert seen. induction l as [|k l IH]; intros seen; simpl; [done|].
  destruct (decide (k ∈ seen)).
  - specialize (IH seen). lia.
  - specialize (IH (seen ++ [k])). simpl. lia.
Qed.

Lemma first_occurrences_NoDup (seen l : list K) :
  NoDup l → (∀ k, k ∈ l → k ∉ seen) → first_occurrences seen l = l.
Proof.
  intros Hl. revert seen. induction Hl as [|k l Hk Hl IH]; intros seen Hseen.
  - done.
  - simpl. rewrite decide_False by (apply Hseen; by left).
    f_equal. apply IH. intros k' Hk' [Hin| ->%list_elem_of_singleton]%elem_of_app.
    + apply (Hseen k'); [by right|done].
    + done.
Qed.

End more_dict_facts.

Lemma last_occurrence {A B} `{!EqDecision B} (f : A → B) (l : list A) (y : B) :
  y ∈ f <$> l →
  ∃ before x after,
    l = before ++ x :: after ∧ f x = y ∧ Forall (λ z, f z ≠ y) after.
Proof.
  induction l as [|x l IH]; simpl.
  - by intros ?%elem_of_nil.
  - intros Hin. destruct (decide (y ∈ f <$> l)) as [Hl|Hl].
    + destruct (IH Hl) as (before & x' & after & -> & Hx & Hafter).
      by exists (x :: before), x', after.
    + apply elem_of_cons in Hin as [->|Hin]; [|done].
      exists [], x, l. split; [done|]. split; [done|].
      apply Forall_forall. intros z Hz Heq. apply Hl.
      rewrite <-Heq. by apply list_elem_of_fmap_2.
Qed.

(** ** Outcomes of [set_model_paths] *)

Section set_model_paths_outcomes.
Context `{!ModelSchema, !FileSystem}.
Implicit Types (self : ModelInfo) (P : list Path) (root : Path).

(** X1: when the metadata has no entry for the model's identifier,
    [set_model_paths] raises the [KeyError] of that key and leaves the
    record as it was: the dictionary of files is not even emptied. *)
Theorem set_model_paths_missing_id self P root :
  metadata self !! MODEL_ID_KEY = None →
  set_model_paths P root self = (Raise (KeyError MODEL_ID_KEY), self).
Proof. intros Hid. by rewrite set_model_paths_unfold, Hid. Qed.

(** X2: [set_model_paths] returns normally exactly when the metadata holds
    the model's identifier and every given path is accepted by the
    classification;  and whatever the outcome, nothing but the dictionary of
    files is written. *)
Theorem set_model_paths_returns_iff self P root :
  ((set_model_paths P root self).1 = Ok () ↔
   is_Some (metadata self !! MODEL_ID_KEY)
   ∧ Forall (classifies (model_path self) root) P)
  ∧ ∃ d, (set_model_paths P root self).2 = with_model_file_paths self d.
Proof.
  rewrite set_model_paths_unfold. split.
  - destruct (metadata self !! MODEL_ID_KEY) as [v|] eqn:Hid.
    + destruct (add_paths (model_path self) root P []) as [r d'] eqn:Hadd.
      simpl. split.
      * intros ->. split; [by exists v|]. by eapply add_paths_Ok_classifies.
      * intros [_ Hall]. destruct (add_paths_ok _ _ _ [] Hall) as [d'' Hok].
        congruence.
    + simpl. split; [done|]. by intros [[v Hv] _].
  - destruct (metadata self !! MODEL_ID_KEY).
    + destruct (add_paths (model_path self) root P []) as [r d'].
      by exists d'.
    + exists (_model_file_paths self). simpl.
      by rewrite with_model_file_paths_same.
Qed.

(** X3: when the classification rejects a path, [set_model_paths] raises
    the exception of that path at once, and the record is left as a call with
    only the paths before it leaves it: what the dictionary held before the
    call is gone, and the paths after the rejected one are not looked at. *)
Theorem set_model_paths_failure_partial self before p after root e :
  is_Some (metadata self !! MODEL_ID_KEY) →
  Forall (classifies (model_path self) root) before →
  ModelFilePath_init p (model_path self) root = Raise e →
  ∃ partial,
    set_model_paths before root self = (Ok (), partial)
    ∧ set_model_paths (before ++ p :: after) root self = (Raise e, partial).
Proof.
  intros [v Hid] Hbefore Hp.
  destruct (add_paths_ok _ _ _ [] Hbefore) as [d Hadd].
  exists (with_model_file_paths self d).
  rewrite !set_model_paths_unfold, Hid, add_paths_app, Hadd.
  split; [done|]. simpl. by rewrite Hp.
Qed.

(** The keys after the loop: the old ones, then the new canonical forms in
    the order in which they first occur. *)
Lemma add_paths_keys_order model_root root P d d' :
  add_paths model_root root P d = (Ok (), d') →
  dict_keys d' = dict_keys d ++ first_occurrences (dict_keys d) (resolve <$> P).
Proof.
  revert d. induction P as [|path P IH]; intros d; simpl.
  - intros [= <-]. by rewrite app_nil_r.
  - destruct (ModelFilePath_init path model_root root)
      as [model_filepath|e] eqn:Hinit; [|done].
    apply ModelFilePath_init_resolved in Hinit as Hres.
    intros Hadd. rewrite (IH _ Hadd), dict_keys_set, Hres.
    destruct (decide (resolve path ∈ dict_keys d)); [done|].
    by rewrite <-app_assoc.
Qed.

(** X4: after a call of [set_model_paths] that returns, the keys of the
    dictionary are, in iteration order, the canonical forms of the given
    paths, each at its first occurrence;  there are at most as many entries
    as paths, and when no two paths have the same canonical form the keys
    are the canonical forms in the order of the paths. *)
Theorem set_model_paths_keys_order self P root self' :
  set_model_paths P root self = (Ok (), self') →
  dict_keys (model_file_paths self') = first_occurrences [] (resolve <$> P)
  ∧ (length (dict_items (model_file_paths self')) ≤ length P)%nat
  ∧ (NoDup (resolve <$> P) →
     dict_keys (model_file_paths self') = resolve <$> P).
Proof.
  intros (d' & Hadd & ->)%set_model_paths_Ok_inv.
  cbn [with_model_file_paths assign_model_file_paths snd
       model_file_paths _model_file_paths].
  apply add_paths_keys_order in Hadd as Hkeys. simpl in Hkeys.
  split; [done|]. split.
  - unfold dict_items. rewrite <-(length_fmap fst d').
    fold (dict_keys d'). rewrite Hkeys.
    etrans; [apply first_occurrences_length|]. by rewrite length_fmap.
  - intros Hnodup. rewrite Hkeys. apply first_occurrences_NoDup; [done|].
    intros k _ Hin. by apply elem_of_nil in Hin.
Qed.

End set_model_paths_outcomes.

(** ** The tracked files after [set_model_paths] *)

Lemma size_list_to_set_le (l : list Path) :
  (size (list_to_set l : gset Path) ≤ length l)%nat.
Proof.
  induction l as [|x l IH].
  - by rewrite list_to_set_nil, size_empty.
  - rewrite list_to_set_cons, size_union_alt, size_singleton. cbn [length].
    assert (size (list_to_set l ∖ {[x]} : gset Path)
            ≤ size (list_to_set l : gset Path))%nat as Hle.
    { apply subseteq_size, subseteq_difference_l. done. }
    lia.
Qed.

Lemma length_filter_relative_to (l : list ModelFilePath) :
  (length (filter (λ p, relative_to p = UNDER_MODEL_ROOT) l)
   + length (filter (λ p, relative_to p = UNDER_REPO_ROOT_OUTSIDE_MODEL) l)
   = length l)%nat.
Proof.
  induction l as [|p l IH]; [done|].
  rewrite !filter_cons.
  destruct (relative_to p) eqn:Hrel.
  - rewrite decide_True, decide_False by done. simpl. lia.
  - rewrite decide_False, decide_True by done. simpl. lia.
Qed.

(** X6: each tracked file is reported by [paths_under_model_by_relative]
    under one of the two relations: the two sets together hold the
    placements of all tracked files, and together they have at most as many
    elements as there are tracked files (equal placements are merged). *)
Theorem paths_under_model_by_relative_cover (self : ModelInfo) :
  (∀ x,
     x ∈ paths_under_model_by_relative self UNDER_MODEL_ROOT
         ∪ paths_under_model_by_relative self UNDER_REPO_ROOT_OUTSIDE_MODEL
     ↔ ∃ kp, kp ∈ dict_items (model_file_paths self) ∧ under_model kp.2 = x)
  ∧ (size (paths_under_model_by_relative self UNDER_MODEL_ROOT)
     + size (paths_under_model_by_relative self UNDER_REPO_ROOT_OUTSIDE_MODEL)
     ≤ length (dict_items (model_file_paths self)))%nat.
Proof.
  unfold paths_under_model_by_relative, dict_items.
  generalize (model_file_paths self). intros d. split.
  - intros x.
    rewrite elem_of_union, !elem_of_list_to_set, !list_elem_of_fmap.
    split.
    + intros [(p & -> & Hp)|(p & -> & Hp)];
        apply list_elem_of_filter in Hp as [_ (kp & -> & Hin)%list_elem_of_fmap];
        by exists kp.
    + intros (kp & Hin & <-).
      assert (kp.2 ∈ d.*2) as Hin2 by (by apply list_elem_of_fmap_2).
      destruct (relative_to kp.2) eqn:Hrel; [left|right];
        exists kp.2; (split; [done|]); by apply list_elem_of_filter.
  - pose proof (length_filter_relative_to d.*2) as Hlen.
    rewrite length_fmap in Hlen.
    pose proof (size_list_to_set_le
      (under_model <$> filter (λ p, relative_to p = UNDER_MODEL_ROOT) d.*2))
      as H1.
    pose proof (size_list_to_set_le
      (under_model <$>
         filter (λ p, relative_to p = UNDER_REPO_ROOT_OUTSIDE_MODEL) d.*2))
      as H2.
    rewrite length_fmap in H1, H2. lia.
Qed.

Section tracked_files.
Context `{!ModelSchema, !FileSystem}.
Implicit Types (self : ModelInfo) (P : list Path) (root : Path).

(** The items after a call that returns: for each canonical form, the
    descriptor of the last path that has it. *)
Lemma set_model_paths_items self P root self' :
  set_model_paths P root self = (Ok (), self') →
  ∀ k model_filepath,
    (k, model_filepath) ∈ dict_items (model_file_paths self') ↔
    ∃ p, last_spelling P p
         ∧ ModelFilePath_init p (model_path self) root = Ok model_filepath
         ∧ k = resolve p.
Proof.
  intros (d' & Hadd & ->)%set_model_paths_Ok_inv k model_filepath.
  cbn [with_model_file_paths assign_model_file_paths snd
       model_file_paths _model_file_paths dict_items].
  split.
  - intros Hin.
    assert (canonical_keys d') as [Hnodup _].
    { eapply add_paths_canonical; [exact Hadd|apply canonical_keys_empty]. }
    assert (k ∈ dict_keys d') as Hk.
    { apply list_elem_of_fmap. by exists (k, model_filepath). }
    destruct (add_paths_keys_sub _ _ _ _ _ _ _ Hadd Hk) as [Hnil|Hres];
      [by apply elem_of_nil in Hnil|].
    destruct (last_occurrence resolve P k Hres)
      as (before & p & after & -> & <- & Hafter).
    destruct (add_paths_get_last _ _ _ _ _ _ _ Hadd Hafter)
      as (model_filepath' & Hinit & Hget).
    rewrite (dict_elem_get _ _ _ Hnodup Hin) in Hget. simplify_eq.
    exists p. split; [by exists before, after|done].
  - intros (p & (before & after & -> & Hafter) & Hinit & ->).
    destruct (add_paths_get_last _ _ _ _ _ _ _ Hadd Hafter)
      as (model_filepath' & Hinit' & Hget).
    apply dict_get_Some_elem. congruence.
Qed.

(** X5: after a call of [set_model_paths] that returns,
    [paths_under_model_by_relative] gives the placements of the descriptors
    of the given paths that have the asked relation, where of several paths
    with one canonical form the last one counts. *)
Theorem paths_under_model_by_relative_after_set self P root self' :
  set_model_paths P root self = (Ok (), self') →
  ∀ rel x,
    x ∈ paths_under_model_by_relative self' rel ↔
    ∃ p model_filepath,
      last_spelling P p
      ∧ ModelFilePath_init p (model_path self) root = Ok model_filepath
      ∧ relative_to model_filepath = rel
      ∧ under_model model_filepath = x.
Proof.
  intros Hcall rel x. unfold paths_under_model_by_relative.
  rewrite elem_of_list_to_set, list_elem_of_fmap. split.
  - intros (q & -> & [Hrel (kp & -> & Hin)%list_elem_of_fmap]%list_elem_of_filter).
    destruct kp as [k model_filepath].
    apply (set_model_paths_items _ _ _ _ Hcall) in Hin as (p & Hlast & Hinit & _).
    by exists p, model_filepath.
  - intros (p & model_filepath & Hlast & Hinit & Hrel & <-).
    exists model_filepath. split; [done|].
    apply list_elem_of_filter. split; [done|].
    apply list_elem_of_fmap. exists (resolve p, model_filepath).
    split; [done|]. apply (set_model_paths_items _ _ _ _ Hcall). by exists p.
Qed.

(** X7: after a call of [set_model_paths] that returns, the main program
    that [main_program_filepath] gives is named "custom.py" and is the
    descriptor of a given path that is the last one with its canonical form;
    and when the descriptor of such a path is named "custom.py", the main
    program exists. *)
Theorem main_program_after_set_model_paths self P root self' :
  set_model_paths P root self = (Ok (), self') →
  (∀ model_filepath,
     main_program_filepath self' = Some model_filepath →
     name model_filepath = "custom.py"
     ∧ ∃ p, last_spelling P p
            ∧ ModelFilePath_init p (model_path self) root = Ok model_filepath)
  ∧ (∀ p model_filepath,
       last_spelling P p →
       ModelFilePath_init p (model_path self) root = Ok model_filepath →
       name model_filepath = "custom.py" →
       main_program_exists self' = true).
Proof.
  intros Hcall. split.
  - intros model_filepath Hmain. unfold main_program_filepath in Hmain.
    apply head_filter_Some in Hmain as (before & after & Heq & Hname & _).
    split; [done|].
    assert (model_filepath ∈ (dict_items (model_file_paths self')).*2)
      as (kp & -> & Hin)%list_elem_of_fmap.
    { rewrite Heq. apply elem_of_app. right. by left. }
    destruct kp as [k model_filepath].
    apply (set_model_paths_items _ _ _ _ Hcall) in Hin as (p & Hlast & Hinit & _).
    by exists p.
  - intros p model_filepath Hlast Hinit Hname.
    unfold main_program_exists, main_program_filepath.
    apply bool_decide_eq_true. intros Hnone.
    apply head_filter_None in Hnone. rewrite Forall_forall in Hnone.
    apply (Hnone model_filepath); [|done].
    apply list_elem_of_fmap. exists (resolve p, model_filepath).
    split; [done|]. apply (set_model_paths_items _ _ _ _ Hcall). by exists p.
Qed.

End tracked_files.

(** ** Runs of calls on [FileChanges] *)

(** X8: after any run of [add_changed] and [extend_deleted] calls,
    [changed_or_new_files] is what it was followed by the added descriptors
    in the order of their calls, and [deleted_file_ids] is what it was
    followed by the identifiers of the [extend_deleted] calls in their
    order;  so the two kinds of calls commute, and extending with an empty
    list changes nothing. *)
Theorem FileChanges_run_contents (self : FileChanges) :
  (∀ calls,
     changed_or_new_files (FileChanges_run self calls)
     = changed_or_new_files self ++ calls_changed calls
     ∧ deleted_file_ids (FileChanges_run self calls)
       = deleted_file_ids self ++ calls_deleted calls)
  ∧ (∀ p l,
       add_changed (extend_deleted self l) p
       = extend_deleted (add_changed self p) l)
  ∧ extend_deleted self [] = self.
Proof.
  split; [|split].
  - intros calls. revert self. unfold FileChanges_run.
    induction calls as [|c calls IH]; intros self.
    + simpl. by rewrite !app_nil_r.
    + cbn [foldl]. destruct (IH (FileChanges_do self c)) as [-> ->].
      destruct c as [p|l]; simpl; by rewrite <-?app_assoc.
  - done.
  - destruct self as [changed deleted]. unfold extend_deleted. simpl.
    by rewrite app_nil_r.
Qed.

Section decisions.
Context `{!ModelSchema}.

(** X9: recording changes never withdraws the need for a new version:
    after any run of calls on [file_changes], [should_create_new_version]
    and [is_affected_by_commit] are still true if they were, and both are
    true as soon as the run has one [add_changed] call. *)
Theorem add_changed_triggers_new_version
  (self : ModelInfo) (calls : list FileChanges_call) :
  let self' :=
    with_file_changes self (FileChanges_run (file_changes self) calls) in
  (truthy (should_create_new_version self) = true →
   truthy (should_create_new_version self') = true)
  ∧ (truthy (is_affected_by_commit self) = true →
     truthy (is_affected_by_commit self') = true)
  ∧ (calls_changed calls ≠ [] →
     truthy (should_create_new_version self') = true
     ∧ truthy (is_affected_by_commit self') = true).
Proof.
  intros self'.
  assert (changed_or_new_files (file_changes self')
          = changed_or_new_files (file_changes self) ++ calls_changed calls)
    as Hchanged.
  { unfold self', FileChanges_run. simpl.
    generalize (file_changes self). intros fc. revert fc.
    induction calls as [|c calls IH]; intros fc.
    - simpl. by rewrite app_nil_r.
    - cbn [foldl]. rewrite IH.
      destruct c as [p|l]; simpl; by rewrite <-?app_assoc. }
  assert (truthy (should_create_new_version self) = true →
          truthy (should_create_new_version self') = true) as Hmono.
  { rewrite !should_create_new_version_truthy, Hchanged.
    intros [?|[Hne|[?|?]]]; auto.
    right; left. intros [Hnil _]%app_eq_nil. done. }
  assert (calls_changed calls ≠ [] →
          truthy (should_create_new_version self') = true) as Hadd.
  { intros Hne. rewrite should_create_new_version_truthy, Hchanged.
    right; left. intros [_ Hnil]%app_eq_nil. done. }
  split; [done|]. split.
  - unfold is_affected_by_commit. rewrite !truthy_por, !orb_true_iff.
    intros [?|?]; auto.
  - intros Hne. split; [auto|].
    unfold is_affected_by_commit. rewrite truthy_por, orb_true_iff. auto.
Qed.

(** X10: a record just constructed from a metadata without a version
    section tracks no file and is not affected: there is no main program,
    [paths_under_model_by_relative] is empty for every relation, and
    [should_create_new_version] and [is_affected_by_commit] are false. *)
Theorem ModelInfo_init_not_affected (y r : Path) (md : gmap string value) :
  md !! VERSION_KEY = None →
  let self := ModelInfo_init y r md in
  truthy (should_create_new_version self) = false
  ∧ truthy (is_affected_by_commit self) = false
  ∧ main_program_exists self = false
  ∧ ∀ rel, paths_under_model_by_relative self rel = ∅.
Proof.
  intros Hversion self.
  assert (truthy (should_create_new_version self) = false) as Hnew.
  { unfold should_create_new_version. rewrite !truthy_por.
    unfold get_value, ModelSchema_get_value. cbn [lookup_chain].
    unfold self, metadata. simpl. by rewrite Hversion. }
  split; [done|]. split; [|done].
  unfold is_affected_by_commit. by rewrite truthy_por, Hnew.
Qed.

End decisions.

Section set_model_paths_frame.
Context `{!ModelSchema, !FileSystem}.

Lemma set_model_paths_state (self : ModelInfo) (P : list Path) (root : Path) :
  ∃ d, (set_model_paths P root self).2 = with_model_file_paths self d.
Proof.
  rewrite set_model_paths_unfold.
  destruct (metadata self !! MODEL_ID_KEY).
  - destruct (add_paths (model_path self) root P []) as [r d']. by exists d'.
  - exists (_model_file_paths self). simpl.
    by rewrite with_model_file_paths_same.
Qed.

(** X11: the decisions do not depend on the tracked files: whatever the
    outcome of [set_model_paths], the values of [should_create_new_version],
    [is_affected_by_commit], [should_run_test], [get_value] and
    [user_provided_id] are afterwards what they were before, and so are the
    model's root directory and the path of its metadata file. *)
Theorem set_model_paths_keeps_decisions
  (self : ModelInfo) (P : list Path) (root : Path) :
  let self' := (set_model_paths P root self).2 in
  should_create_new_version self' = should_create_new_version self
  ∧ is_affected_by_commit self' = is_affected_by_commit self
  ∧ should_run_test self' = should_run_test self
  ∧ (∀ key sub_keys, get_value self' key sub_keys = get_value self key sub_keys)
  ∧ user_provided_id self' = user_provided_id self
  ∧ model_path self' = model_path self
  ∧ yaml_filepath self' = yaml_filepath self.
Proof.
  intros self'. unfold self'.
  destruct (set_model_paths_state self P root) as [d ->].
  repeat split.
Qed.

End set_model_paths_frame.

(** ** The further properties at work *)

Section more_examples.
Local Existing Instance example_schema.
Local Existing Instance example_fs.

(** The scenario of a model with one shared file: the files of the model
    and the file of the repository are reported under their relation. *)
Example paths_under_model_by_relative_scan_full :
  paths_under_model_by_relative
    (set_model_paths scan_full repo_root m1).2 UNDER_MODEL_ROOT
  = {[ mkPath false ["custom.py"]; mkPath false ["score.py"] ]}
  ∧ paths_under_model_by_relative
      (set_model_paths scan_full repo_root m1).2 UNDER_REPO_ROOT_OUTSIDE_MODEL
    = {[ mkPath false ["common"; "lib.py"] ]}.
Proof.
  unfold paths_under_model_by_relative. split.
  - set (l := under_model <$> _). vm_compute in l. subst l. set_solver.
  - set (l := under_model <$> _). vm_compute in l. subst l. set_solver.
Qed.

(** After the three spellings of custom.py the main program is not found:
    the descriptor that stays is the one of the detour, whose name is
    [..]. *)
Example main_program_lost_by_spelling :
  main_program_exists (set_model_paths scan_spellings repo_root m1).2 = false
  ∧ main_program_exists (set_model_paths scan_full repo_root m1).2 = true.
Proof. split; reflexivity. Qed.

Lemma set_model_paths_missing_id_witness :
  set_model_paths scan_full repo_root anonymous_model
  = (Raise (KeyError MODEL_ID_KEY), anonymous_model).
Proof.
  apply (set_model_paths_missing_id anonymous_model scan_full repo_root).
  reflexivity.
Defined.

Lemma set_model_paths_failure_partial_witness :
  ∃ partial,
    set_model_paths [m1_custom_py] repo_root m1 = (Ok (), partial)
    ∧ set_model_paths ([m1_custom_py] ++ outside_py :: [m1_score_py])
        repo_root m1
      = (Raise (ClassificationError outside_py), partial).
Proof.
  apply (set_model_paths_failure_partial m1 [m1_custom_py] outside_py
           [m1_score_py] repo_root (ClassificationError outside_py)).
  - exact m1_has_id.
  - exact scan_small_classifies.
  - reflexivity.
Defined.

Lemma set_model_paths_keys_order_witness :
  dict_keys (model_file_paths (set_model_paths scan_spellings repo_root m1).2)
  = first_occurrences [] (resolve <$> scan_spellings)
  ∧ (length (dict_items
               (model_file_paths (set_model_paths scan_spellings repo_root m1).2))
     ≤ length scan_spellings)%nat
  ∧ (NoDup (resolve <$> scan_spellings) →
     dict_keys (model_file_paths (set_model_paths scan_spellings repo_root m1).2)
     = resolve <$> scan_spellings).
Proof.
  apply (set_model_paths_keys_order m1 scan_spellings repo_root).
  reflexivity.
Defined.

Lemma paths_under_model_by_relative_after_set_witness :
  mkPath false ["common"; "lib.py"]
  ∈ paths_under_model_by_relative
      (set_model_paths scan_full repo_root m1).2 UNDER_REPO_ROOT_OUTSIDE_MODEL.
Proof.
  apply (paths_under_model_by_relative_after_set m1 scan_full repo_root
           (set_model_paths scan_full repo_root m1).2); [reflexivity|].
  exists common_lib_py,
    (mkModelFilePath "lib.py" common_lib_py (mkPath false ["common"; "lib.py"])
       UNDER_REPO_ROOT_OUTSIDE_MODEL).
  split; [|done].
  exists [m1_custom_py; m1_score_py], []. split; [reflexivity|constructor].
Defined.

Lemma main_program_after_set_model_paths_witness :
  (∀ model_filepath,
     main_program_filepath (set_model_paths scan_full repo_root m1).2
     = Some model_filepath →
     name model_filepath = "custom.py"
     ∧ ∃ p, last_spelling scan_full p
            ∧ ModelFilePath_init p (model_path m1) repo_root = Ok model_filepath)
  ∧ (∀ p model_filepath,
       last_spelling scan_full p →
       ModelFilePath_init p (model_path m1) repo_root = Ok model_filepath →
       name model_filepath = "custom.py" →
       main_program_exists (set_model_paths scan_full repo_root m1).2 = true).
Proof.
  apply (main_program_after_set_model_paths m1 scan_full repo_root).
  reflexivity.
Defined.

Lemma add_changed_triggers_new_version_witness :
  truthy (should_create_new_version
            (with_file_changes m1 (FileChanges_run (file_changes m1) m1_calls)))
  = true.
Proof.
  apply (add_changed_triggers_new_version m1 m1_calls). done.
Defined.

Lemma ModelInfo_init_not_affected_witness :
  truthy (should_create_new_version (ModelInfo_init m1_yaml m1_root m1_metadata))
  = false
  ∧ truthy (is_affected_by_commit (ModelInfo_init m1_yaml m1_root m1_metadata))
    = false
  ∧ main_program_exists (ModelInfo_init m1_yaml m1_root m1_metadata) = false
  ∧ ∀ rel,
      paths_under_model_by_relative
        (ModelInfo_init m1_yaml m1_root m1_metadata) rel = ∅.
Proof.
  apply (ModelInfo_init_not_affected m1_yaml m1_root m1_metadata).
  reflexivity.
Defined.

End more_examples.
